(** * Settings store of [conf/__init__.py]: macro expansion and structural merge

    A shallow embedding of the [Settings] class and of [merge_spec].

    Modelling conventions.
    - Python text is modelled as ASCII [string]s; the regular-expression
      class [\w] is the ASCII one (letters, digits, underscore).
    - A Python [dict] is an insertion-ordered association list with text
      keys; [dict_get] reads the first binding of a key and [dict_set]
      overwrites it in place or appends a new binding, as assignment to
      [d[k]] does.
    - The instance [__dict__] of [Settings] is such a dictionary.
    - A call that may raise returns a [res]: the value, the exception that
      reaches the caller, [Unmodelled] when the evaluated expression leaves
      the fragment of Python interpreted here, or [OutOfFuel] when the
      recursion budget of [getValue] is exhausted. *)

From Stdlib Require Import List String Ascii ZArith Bool Lia Arith.
From Stdlib Require Import DecimalString.
Import ListNotations.
Open Scope string_scope.

Set Implicit Arguments.

(** ** Python values *)

Unset Elimination Schemes.
Inductive value : Type :=
| VNone
| VBool (b : bool)
| VInt (z : Z)
| VStr (s : string)
| VList (l : list value)
| VTuple (l : list value)
| VDict (d : list (string * value)).
Set Elimination Schemes.

Definition dict := list (string * value).

(** ** Induction on values, through lists and dictionaries *)

Section ValueInd.
Variable P : value -> Prop.
Hypothesis HNone : P VNone.
Hypothesis HBool : forall b, P (VBool b).
Hypothesis HInt : forall z, P (VInt z).
Hypothesis HStr : forall s, P (VStr s).
Hypothesis HList : forall l, Forall P l -> P (VList l).
Hypothesis HTuple : forall l, Forall P l -> P (VTuple l).
Hypothesis HDict : forall d, Forall (fun kv => P (snd kv)) d -> P (VDict d).

Fixpoint value_ind (v : value) : P v :=
  match v with
  | VNone => HNone
  | VBool b => HBool b
  | VInt z => HInt z
  | VStr s => HStr s
  | VList l =>
      HList ((fix all (l : list value) : Forall P l :=
                match l with
                | [] => Forall_nil P
                | x :: l' => Forall_cons x (value_ind x) (all l')
                end) l)
  | VTuple l =>
      HTuple ((fix all (l : list value) : Forall P l :=
                 match l with
                 | [] => Forall_nil P
                 | x :: l' => Forall_cons x (value_ind x) (all l')
                 end) l)
  | VDict d =>
      HDict ((fix all (d : dict) : Forall (fun kv => P (snd kv)) d :=
                match d with
                | [] => Forall_nil _
                | kv :: d' =>
                    Forall_cons kv (value_ind (snd kv)) (all d')
                end) d)
  end.
End ValueInd.

(** ** Outcomes of a call *)

Inductive exn : Type := IndexError | AttributeError | KeyError | TypeError.

Inductive res (A : Type) : Type :=
| Ret (a : A)
| Raise (e : exn)
| Unmodelled
| OutOfFuel.

Arguments Ret {A} a.
Arguments Raise {A} e.
Arguments Unmodelled {A}.
Arguments OutOfFuel {A}.

Definition bind {A B : Type} (m : res A) (f : A -> res B) : res B :=
  match m with
  | Ret a => f a
  | Raise e => Raise e
  | Unmodelled => Unmodelled
  | OutOfFuel => OutOfFuel
  end.

Declare Scope res_scope.
Delimit Scope res_scope with res.
Notation "x <- m ;; k" := (bind m (fun x => k))
  (at level 61, m at next level, right associativity) : res_scope.
Open Scope res_scope.

(** ** Dictionaries *)

Section Dict.
Variable V : Type.

Fixpoint dict_get (k : string) (d : list (string * V)) : option V :=
  match d with
  | [] => None
  | (k', v) :: d' => if String.eqb k k' then Some v else dict_get k d'
  end.

Definition dict_mem (k : string) (d : list (string * V)) : bool :=
  match dict_get k d with Some _ => true | None => false end.

Fixpoint dict_set (k : string) (v : V) (d : list (string * V))
  : list (string * V) :=
  match d with
  | [] => [(k, v)]
  | (k', v') :: d' =>
      if String.eqb k k' then (k', v) :: d' else (k', v') :: dict_set k v d'
  end.

(** A dictionary filled by successive assignments [d[k] = v]. *)
Definition dict_of_items (items : list (string * V)) : list (string * V) :=
  fold_left (fun acc kv => dict_set (fst kv) (snd kv) acc) items [].
End Dict.

(** ** Text primitives *)

Definition is_upper_letter (c : ascii) : bool :=
  let n := nat_of_ascii c in ((65 <=? n) && (n <=? 90))%nat.

Definition is_lower_letter (c : ascii) : bool :=
  let n := nat_of_ascii c in ((97 <=? n) && (n <=? 122))%nat.

Definition is_digit (c : ascii) : bool :=
  let n := nat_of_ascii c in ((48 <=? n) && (n <=? 57))%nat.

(** The class [\w]. *)
Definition is_word (c : ascii) : bool :=
  is_upper_letter c || is_lower_letter c || is_digit c || Ascii.eqb c "_".

Fixpoint existsb_str (p : ascii -> bool) (s : string) : bool :=
  match s with
  | EmptyString => false
  | String c s' => p c || existsb_str p s'
  end.

(** [str.isupper]: at least one cased character, and no lowercase one. *)
Definition isupper (s : string) : bool :=
  existsb_str is_upper_letter s && negb (existsb_str is_lower_letter s).

Definition upper_char (c : ascii) : ascii :=
  if is_lower_letter c then ascii_of_nat (nat_of_ascii c - 32) else c.

(** [str.upper]. *)
Fixpoint upper (s : string) : string :=
  match s with
  | EmptyString => EmptyString
  | String c s' => String (upper_char c) (upper s')
  end.

(** [s.replace(old, new)] for a non-empty [old]: every non-overlapping
    occurrence, leftmost first.  [skip] counts the characters of an
    occurrence that has just been replaced and are still to be passed. *)
Fixpoint replace_from (old new : string) (skip : nat) (s : string) : string :=
  match s with
  | EmptyString => EmptyString
  | String c s' =>
      match skip with
      | S n => replace_from old new n s'
      | O =>
          if String.prefix old s
          then new ++ replace_from old new (String.length old - 1) s'
          else String c (replace_from old new 0 s')
      end
  end.

Definition replace (old new s : string) : string := replace_from old new 0 s.

(** ** Regular expressions

    A backtracking matcher in continuation-passing style with the search
    order of Python's [re]: alternatives of a greedy repetition are tried
    longest first, and a capturing group keeps what its last successful
    iteration matched. *)

Inductive regex : Type :=
| RChar (c : ascii)
| RClass (p : ascii -> bool)
| RSeq (r1 r2 : regex)
| RStar (r : regex)
| RGroup (i : nat) (r : regex).

Definition RPlus (r : regex) : regex := RSeq r (RStar r).

Fixpoint RLit (s : string) : regex -> regex :=
  match s with
  | EmptyString => fun k => k
  | String c s' => fun k => RSeq (RChar c) (RLit s' k)
  end.

Definition captures := nat -> string.

Definition no_captures : captures := fun _ => EmptyString.

Definition capture (i : nat) (s : string) (caps : captures) : captures :=
  fun j => if Nat.eqb j i then s else caps j.

(** The text consumed between the input [s] and its suffix [s']. *)
Definition consumed (s s' : string) : string :=
  String.substring 0 (String.length s - String.length s') s.

Fixpoint rmatch (R : Type) (r : regex) (s : string) (caps : captures)
  (k : string -> captures -> option R) {struct r} : option R :=
  match r with
  | RChar c =>
      match s with
      | String c' s' => if Ascii.eqb c c' then k s' caps else None
      | EmptyString => None
      end
  | RClass p =>
      match s with
      | String c' s' => if p c' then k s' caps else None
      | EmptyString => None
      end
  | RSeq r1 r2 => rmatch r1 s caps (fun s1 c1 => rmatch r2 s1 c1 k)
  | RGroup i r1 =>
      rmatch r1 s caps (fun s1 c1 => k s1 (capture i (consumed s s1) c1))
  | RStar r1 =>
      (fix star (n : nat) (s : string) (caps : captures) : option R :=
         match n with
         | O => k s caps
         | S n' =>
             match rmatch r1 s caps
                     (fun s1 c1 =>
                        if (String.length s1 <? String.length s)%nat
                        then star n' s1 c1 else None)
             with
             | Some x => Some x
             | None => k s caps
             end
         end) (String.length s) s caps
  end.

(** The pattern of [_eval_param]: the literal text #PARAM and an opening
    parenthesis; group 1, made of group 2 (one or more characters that are
    word characters or hyphens) and of any number of repetitions of group 3
    (an opening bracket, one or more characters among word characters,
    brackets, hyphen, single and double quote, and a closing bracket); a
    closing parenthesis. *)

Definition dquote : ascii := ascii_of_nat 34.
Definition squote : ascii := ascii_of_nat 39.

Definition name_class (c : ascii) : bool := is_word c || Ascii.eqb c "-".

Definition subscript_class (c : ascii) : bool :=
  is_word c || Ascii.eqb c "[" || Ascii.eqb c "]" || Ascii.eqb c "-"
  || Ascii.eqb c squote || Ascii.eqb c dquote.

Definition PARAM_PATTERN : regex :=
  RLit "#PARAM("
    (RSeq
       (RGroup 1
          (RSeq (RGroup 2 (RPlus (RClass name_class)))
                (RStar
                   (RGroup 3
                      (RSeq (RChar "[")
                            (RSeq (RPlus (RClass subscript_class))
                                  (RChar "]")))))))
       (RChar ")")).

(** One element of [re.findall]: the text of groups 1, 2 and 3. *)
Definition macro := (string * string * string)%type.

Definition match_at (s : string) : option (string * macro) :=
  rmatch PARAM_PATTERN s no_captures
    (fun rest caps => Some (rest, (caps 1, caps 2, caps 3))).

(** [re.findall]: scan left to right; after a match resume behind it.
    The pattern never matches the empty text. *)
Fixpoint findall_from (skip : nat) (s : string) : list macro :=
  match s with
  | EmptyString => []
  | String _ s' =>
      match skip with
      | S n => findall_from n s'
      | O =>
          match match_at s with
          | Some (rest, m) =>
              m :: findall_from (String.length s - String.length rest - 1) s'
          | None => findall_from 0 s'
          end
      end
  end.

Definition findall (s : string) : list macro := findall_from 0 s.

(** ** Textual form of a value: [str] and [repr] *)

Definition hex_digit (n : nat) : ascii :=
  if (n <? 10)%nat then ascii_of_nat (48 + n) else ascii_of_nat (87 + n).

(** [repr] of one character inside a literal delimited by [q]. *)
Definition repr_char (q c : ascii) : string :=
  let n := nat_of_ascii c in
  if Ascii.eqb c q || Ascii.eqb c "\" then String "\" (String c EmptyString)
  else if (n =? 9)%nat then "\t"
  else if (n =? 10)%nat then "\n"
  else if (n =? 13)%nat then "\r"
  else if (n <? 32)%nat || (n =? 127)%nat
       then String "\" (String "x" (String (hex_digit (n / 16))
                                          (String (hex_digit (n mod 16))
                                                  EmptyString)))
  else String c EmptyString.

Fixpoint repr_chars (q : ascii) (s : string) : string :=
  match s with
  | EmptyString => EmptyString
  | String c s' => repr_char q c ++ repr_chars q s'
  end.

(** [repr] of text: single quotes, unless the text has a single quote and
    no double quote. *)
Definition repr_str (s : string) : string :=
  let q := if existsb_str (Ascii.eqb squote) s
              && negb (existsb_str (Ascii.eqb dquote) s)
           then dquote else squote in
  String q (repr_chars q s ++ String q EmptyString).

Definition str_of_Z (z : Z) : string := NilZero.string_of_int (Z.to_int z).

Fixpoint join (sep : string) (l : list string) : string :=
  match l with
  | [] => EmptyString
  | [x] => x
  | x :: l' => x ++ sep ++ join sep l'
  end.

Fixpoint py_repr (v : value) : string :=
  match v with
  | VNone => "None"
  | VBool true => "True"
  | VBool false => "False"
  | VInt z => str_of_Z z
  | VStr s => repr_str s
  | VList l => "[" ++ join ", " (map py_repr l) ++ "]"
  | VTuple l =>
      match l with
      | [x] => "(" ++ py_repr x ++ ",)"
      | _ => "(" ++ join ", " (map py_repr l) ++ ")"
      end
  | VDict d =>
      "{" ++ join ", "
               (map (fun kv => repr_str (fst kv) ++ ": " ++ py_repr (snd kv)) d)
          ++ "}"
  end.

Definition py_str (v : value) : string :=
  match v with
  | VStr s => s
  | _ => py_repr v
  end.

(** ** The expression handed to [eval]

    [_eval_param] evaluates the text [self.getValue('NAME')SUBSCRIPTS],
    where NAME is group 2 and SUBSCRIPTS group 3 of the match.  The
    interpreted fragment of SUBSCRIPTS is a chain of subscripts, each a
    decimal integer literal without leading zero, optionally negated, or a
    text literal in single or double quotes.  Any other text (a bare
    name, an unbalanced bracket, an arithmetic expression, ...) is outside
    the fragment. *)

Inductive accessor : Type :=
| AIndex (i : Z)
| AKey (k : string).

Inductive pstate : Type :=
| PStart                          (* between subscripts *)
| POpen                           (* after an opening bracket *)
| PNeg                            (* after a minus sign *)
| PNum (neg zero : bool) (n : Z)  (* inside an integer literal *)
| PStr (q : ascii) (acc : string) (* inside a text literal *)
| PEnd (a : accessor).            (* after a literal, before the bracket *)

Definition digit_val (c : ascii) : Z := Z.of_nat (nat_of_ascii c - 48).

Fixpoint parse_from (st : pstate) (acc : list accessor) (s : string)
  : option (list accessor) :=
  match s with
  | EmptyString =>
      match st with PStart => Some (rev acc) | _ => None end
  | String c s' =>
      match st with
      | PStart =>
          if Ascii.eqb c "[" then parse_from POpen acc s' else None
      | POpen =>
          if Ascii.eqb c "-" then parse_from PNeg acc s'
          else if Ascii.eqb c squote || Ascii.eqb c dquote
               then parse_from (PStr c EmptyString) acc s'
          else if is_digit c
               then parse_from (PNum false (Ascii.eqb c "0") (digit_val c)) acc s'
          else None
      | PNeg =>
          if is_digit c
          then parse_from (PNum true (Ascii.eqb c "0") (digit_val c)) acc s'
          else None
      | PNum neg zero n =>
          if Ascii.eqb c "]"
          then parse_from PStart (AIndex (if neg then - n else n) :: acc) s'
          else if is_digit c && negb zero
               then parse_from (PNum neg false (10 * n + digit_val c)) acc s'
          else None
      | PStr q k =>
          if Ascii.eqb c q then parse_from (PEnd (AKey k)) acc s'
          else parse_from (PStr q (k ++ String c EmptyString)) acc s'
      | PEnd a =>
          if Ascii.eqb c "]" then parse_from PStart (a :: acc) s' else None
      end
  end.

Definition parse_accessors (s : string) : option (list accessor) :=
  parse_from PStart [] s.

(** [seq[i]] on a sequence of length [len]: the position read, if any. *)
Definition index_pos (len : nat) (i : Z) : option nat :=
  if (0 <=? i)%Z && (i <? Z.of_nat len)%Z then Some (Z.to_nat i)
  else if (- Z.of_nat len <=? i)%Z && (i <? 0)%Z
       then Some (Z.to_nat (Z.of_nat len + i))
  else None.

(** [v[a]]. *)
Definition subscript (v : value) (a : accessor) : res value :=
  match v, a with
  | VList l, AIndex i | VTuple l, AIndex i =>
      match index_pos (List.length l) i with
      | Some n =>
          match nth_error l n with
          | Some x => Ret x
          | None => Raise IndexError
          end
      | None => Raise IndexError
      end
  | VStr s, AIndex i =>
      match index_pos (String.length s) i with
      | Some n =>
          match String.get n s with
          | Some c => Ret (VStr (String c EmptyString))
          | None => Raise IndexError
          end
      | None => Raise IndexError
      end
  | VDict d, AKey k =>
      match dict_get k d with
      | Some x => Ret x
      | None => Raise KeyError
      end
  | VDict _, AIndex _ => Raise KeyError
  | VList _, AKey _ | VTuple _, AKey _ | VStr _, AKey _ => Raise TypeError
  | VNone, _ | VBool _, _ | VInt _, _ => Raise TypeError
  end.

Fixpoint subscripts (v : value) (accs : list accessor) : res value :=
  match accs with
  | [] => Ret v
  | a :: accs' => v' <- subscript v a ;; subscripts v' accs'
  end.

(** ** [merge_spec]

    The function updates [orig] in place and returns it; the embedding
    returns the updated dictionary.  Keys of a dictionary are distinct, so
    the first loop, which assigns to keys that are already present, is a
    pass over the bindings of [orig] in their order.  When a call raises,
    the partly updated [orig] is not tracked.  Iterating over an [orig] or
    a [new] that is text or a sequence is outside the interpreted
    fragment; iterating over [None], a boolean or an integer raises. *)

Definition keys (d : dict) : list string := map fst d.

(** The second loop: [for key in new: if key not in orig: ...]. *)
Fixpoint add_missing (new : dict) (ks : list string) (orig : dict) : dict :=
  match ks with
  | [] => orig
  | key :: ks' =>
      if dict_mem key orig then add_missing new ks' orig
      else match dict_get key new with
           | Some nv => add_missing new ks' (dict_set key nv orig)
           | None => add_missing new ks' orig
           end
  end.

Fixpoint merge_spec (orig new : value) {struct orig} : res value :=
  match orig with
  | VDict od =>
      match new with
      | VDict nd =>
          od' <- (fix first_loop (entries : dict) : res dict :=
                    match entries with
                    | [] => Ret []
                    | (key, v) :: rest =>
                        match dict_get key nd with
                        | None =>
                            rest' <- first_loop rest ;; Ret ((key, v) :: rest')
                        | Some nv =>
                            match v with
                            | VDict _ =>
                                m <- merge_spec v nv ;;
                                rest' <- first_loop rest ;;
                                Ret ((key, m) :: rest')
                            | _ =>
                                rest' <- first_loop rest ;;
                                Ret ((key, nv) :: rest')
                            end
                        end
                    end) od ;;
          Ret (VDict (add_missing nd (keys nd) od'))
      | VNone | VBool _ | VInt _ => Raise TypeError
      | VStr _ | VList _ | VTuple _ => Unmodelled
      end
  | VNone | VBool _ | VInt _ => Raise TypeError
  | VStr _ | VList _ | VTuple _ => Unmodelled
  end.

(** ** The class [Settings]

    An instance is its [__dict__]. *)

Module Settings.

Section Resolver.
(** [self.getValue], as seen from inside [eval]. *)
Variable getValue : string -> res value.

Definition eval_macro (m : macro) : res value :=
  let '(_, name, subs) := m in
  match parse_accessors subs with
  | None => Unmodelled
  | Some accs => v <- getValue name ;; subscripts v accs
  end.

(** ['#PARAM({})'.format(macro[0])]. *)
Definition placeholder (m : macro) : string :=
  "#PARAM(" ++ fst (fst m) ++ ")".

(** The loop [for macro in macros] of the text branch. *)
Fixpoint expand (macros : list macro) (param : string) : res string :=
  match macros with
  | [] => Ret param
  | m :: macros' =>
      match eval_macro m with
      | Ret v =>
          expand macros' (replace (placeholder m) (py_str v) param)
      | Raise IndexError | Raise AttributeError => expand macros' param
      | Raise e => Raise e
      | Unmodelled => Unmodelled
      | OutOfFuel => OutOfFuel
      end
  end.

Fixpoint eval_value (param : value) : res value :=
  match param with
  | VStr s => s' <- expand (findall s) s ;; Ret (VStr s')
  | VList l | VTuple l =>
      tmp_list <- (fix items (l : list value) : res (list value) :=
                     match l with
                     | [] => Ret []
                     | item :: l' =>
                         x <- eval_value item ;;
                         r <- items l' ;;
                         Ret (x :: r)
                     end) l ;;
      Ret (VList tmp_list)
  | VDict d =>
      tmp_dict <- (fix items (d : dict) : res dict :=
                     match d with
                     | [] => Ret []
                     | (key, v) :: d' =>
                         x <- eval_value v ;;
                         r <- items d' ;;
                         Ret ((key, x) :: r)
                     end) d ;;
      Ret (VDict tmp_dict)
  | VNone | VBool _ | VInt _ => Ret param
  end.
End Resolver.

(** [fuel] bounds the depth of the calls of [getValue] made through
    placeholders. *)
Fixpoint getValue (fuel : nat) (self : dict) (attr : string) : res value :=
  match dict_get attr self with
  | Some master_value =>
      if String.eqb attr "TEST_PARAMS" then Ret master_value
      else eval_value
             match fuel with
             | O => fun _ => OutOfFuel
             | S n => getValue n self
             end master_value
  | None => Raise AttributeError
  end.

Definition nested (fuel : nat) (self : dict) : string -> res value :=
  match fuel with
  | O => fun _ => OutOfFuel
  | S n => getValue n self
  end.

Definition _eval_param (fuel : nat) (self : dict) (param : value)
  : res value :=
  eval_value (nested fuel self) param.

Definition __setattr__ (self : dict) (name : string) (v : value) : dict :=
  if negb (isupper name) then self else dict_set name v self.

(** [object.__setattr__(self, name, value)], which [setValue] reaches
    through [super()].  Three names are data descriptors of the class and
    are not stored in [__dict__]: assigning a mapping to [__dict__]
    replaces the whole instance dictionary and assigning anything else to
    it raises TypeError; [__class__] accepts only a class, which no
    modelled value is; [__weakref__] is not writable.  Every other name is
    stored.  ([__setattr__] above only passes names without lowercase
    letters, none of which is one of the three.) *)
Definition object_setattr (self : dict) (name : string) (v : value)
  : res dict :=
  if String.eqb name "__dict__"
  then match v with
       | VDict d => Ret d
       | _ => Raise TypeError
       end
  else if String.eqb name "__class__" then Raise TypeError
  else if String.eqb name "__weakref__" then Raise AttributeError
  else Ret (dict_set name v self).

(** [name] is [None] or text. *)
Definition setValue (self : dict) (name : option string) (v : value)
  : res dict :=
  match name, v with
  | None, _ => Ret self
  | Some _, VNone => Ret self
  | Some n, _ => object_setattr self n v
  end.

(** [getattr(self, name)] for a name without lowercase letters: no
    attribute of the class has such a name, so only [__dict__] counts. *)
Definition getattr (self : dict) (name : string) : res value :=
  match dict_get name self with
  | Some v => Ret v
  | None => Raise AttributeError
  end.

(** One round of the loop of [load_from_dict].  [merge_spec] updates the
    stored object in place before [setattr] is reached. *)
Definition load_entry (self : dict) (key : string) (v : value)
  : res dict :=
  match v with
  | VNone => Ret self
  | VDict _ =>
      orig <- getattr self (upper key) ;;
      merged <- merge_spec orig v ;;
      Ret (__setattr__ (dict_set (upper key) merged self) (upper key) merged)
  | _ => Ret (__setattr__ self (upper key) v)
  end.

Fixpoint load_entries (self : dict) (ks : list string) (conf : dict)
  : res dict :=
  match ks with
  | [] => Ret self
  | key :: ks' =>
      match dict_get key conf with
      | Some v => self' <- load_entry self key v ;; load_entries self' ks' conf
      | None => Raise KeyError
      end
  end.

Definition load_from_dict (self : dict) (conf : dict) : res dict :=
  load_entries self (keys conf) conf.

Fixpoint restore_entries (self : dict) (ks : list string) (tmp_conf : dict)
  : res dict :=
  match ks with
  | [] => Ret self
  | key :: ks' =>
      match dict_get key tmp_conf with
      | Some v =>
          self' <- setValue self (Some key) v ;;
          restore_entries self' ks' tmp_conf
      | None => Raise KeyError
      end
  end.

(** [self.__dict__.clear()], then [setValue] for every key of the copy. *)
Definition restore_from_dict (self : dict) (conf : dict) : res dict :=
  restore_entries [] (keys conf) conf.

(** The call [self.getValue(attr)] made on an instance.  The method is
    looked up on the instance first: a value stored in [__dict__] under
    the name getValue hides the method, and calling that value raises
    TypeError, since no modelled value is callable.  The same holds for
    the call [self._eval_param(master_value)] inside the method.
    [getValue] above is the method itself, with both names unhidden. *)
Definition call_getValue (fuel : nat) (self : dict) (attr : string)
  : res value :=
  if dict_mem "getValue" self then Raise TypeError
  else match dict_get attr self with
       | Some master_value =>
           if String.eqb attr "TEST_PARAMS" then Ret master_value
           else if dict_mem "_eval_param" self then Raise TypeError
           else _eval_param fuel self master_value
       | None => Raise AttributeError
       end.

End Settings.

(** ** Auxiliary notions used in the statements *)

(** The first loop of [merge_spec], by name. *)
Definition first_loop (nd : dict) : dict -> res dict :=
  fix first_loop (entries : dict) : res dict :=
    match entries with
    | [] => Ret []
    | (key, v) :: rest =>
        match dict_get key nd with
        | None => rest' <- first_loop rest ;; Ret ((key, v) :: rest')
        | Some nv =>
            match v with
            | VDict _ =>
                m <- merge_spec v nv ;;
                rest' <- first_loop rest ;;
                Ret ((key, m) :: rest')
            | _ => rest' <- first_loop rest ;; Ret ((key, nv) :: rest')
            end
        end
    end.

(** [new] offers a mapping wherever [orig] holds one under a shared key. *)
Fixpoint mergeable (orig new : value) {struct orig} : bool :=
  match orig, new with
  | VDict od, VDict nd =>
      forallb (fun kv =>
                 match dict_get (fst kv) nd with
                 | None => true
                 | Some nv =>
                     match snd kv with
                     | VDict _ => mergeable (snd kv) nv
                     | _ => true
                     end
                 end) od
  | _, _ => false
  end.

(** No text inside the value has a placeholder occurrence. *)
Fixpoint no_placeholders (v : value) : bool :=
  match v with
  | VStr s => match findall s with [] => true | _ :: _ => false end
  | VList l | VTuple l => forallb no_placeholders l
  | VDict d => forallb (fun kv => no_placeholders (snd kv)) d
  | VNone | VBool _ | VInt _ => true
  end.

(** The value with every tuple turned into the list of its elements. *)
Fixpoint as_lists (v : value) : value :=
  match v with
  | VList l | VTuple l => VList (map as_lists l)
  | VDict d => VDict (map (fun kv => (fst kv, as_lists (snd kv))) d)
  | VNone | VBool _ | VInt _ | VStr _ => v
  end.

Fixpoint tuple_free (v : value) : bool :=
  match v with
  | VTuple _ => false
  | VList l => forallb tuple_free l
  | VDict d => forallb (fun kv => tuple_free (snd kv)) d
  | VNone | VBool _ | VInt _ | VStr _ => true
  end.

(** A normalized settings identifier, as the specification words it: a
    non-empty name of uppercase letters, digits and underscores that does
    not start with a digit. *)
Definition identifier_char (c : ascii) : bool :=
  is_upper_letter c || is_digit c || Ascii.eqb c "_".

Definition identifier_shaped (name : string) : bool :=
  match name with
  | EmptyString => false
  | String c rest =>
      negb (is_digit c) && identifier_char c
      && negb (existsb_str (fun x => negb (identifier_char x)) rest)
  end.

Definition is_mapping (v : value) : bool :=
  match v with VDict _ => true | _ => false end.

(** The exceptions that the loop over the macros catches. *)
Definition caught (e : exn) : bool :=
  match e with
  | IndexError | AttributeError => true
  | KeyError | TypeError => false
  end.

(** [gv'] answers as [gv] wherever [gv] does not run out of fuel. *)
Definition extends (gv gv' : string -> res value) : Prop :=
  forall name, gv name <> OutOfFuel -> gv' name = gv name.

(** The names that [object.__setattr__] does not store in [__dict__]. *)
Definition descriptor_name (name : string) : bool :=
  String.eqb name "__dict__" || String.eqb name "__class__"
  || String.eqb name "__weakref__".

(** A stored value hides one of the methods that a read calls. *)
Definition hides_reader (self : dict) : bool :=
  dict_mem "getValue" self || dict_mem "_eval_param" self.

(** * Properties *)

(** ** Dictionary lemmas *)

Section DictFacts.
Variable V : Type.
Implicit Types (d : list (string * V)) (k : string) (v : V).

Lemma dict_get_set_same d k v : dict_get k (dict_set k v d) = Some v.
Proof.
  induction d as [|[k' v'] d IH]; simpl.
  - now rewrite String.eqb_refl.
  - destruct (String.eqb k k') eqn:E; simpl; rewrite E; auto.
Qed.

Lemma dict_get_set_other d k k' v :
  k' <> k -> dict_get k' (dict_set k v d) = dict_get k' d.
Proof.
  intros Hne. induction d as [|[k0 v0] d IH]; simpl.
  - destruct (String.eqb k' k) eqn:E; auto.
    apply String.eqb_eq in E. contradiction.
  - destruct (String.eqb k k0) eqn:E; simpl.
    + apply String.eqb_eq in E. subst k0.
      destruct (String.eqb k' k) eqn:E'; auto.
      apply String.eqb_eq in E'. contradiction.
    + now rewrite IH.
Qed.

Lemma dict_set_set d k v : dict_set k v (dict_set k v d) = dict_set k v d.
Proof.
  induction d as [|[k' v'] d IH]; simpl.
  - now rewrite String.eqb_refl.
  - destruct (String.eqb k k') eqn:E; simpl; rewrite E; congruence.
Qed.

Lemma dict_mem_true d k :
  dict_mem k d = true <-> exists v, dict_get k d = Some v.
Proof.
  unfold dict_mem. destruct (dict_get k d); split; eauto; try discriminate.
  intros [v H]. discriminate.
Qed.

Lemma dict_mem_false d k : dict_mem k d = false <-> dict_get k d = None.
Proof.
  unfold dict_mem. destruct (dict_get k d); split; congruence.
Qed.

Lemma dict_get_In d k v : dict_get k d = Some v -> In k (map fst d).
Proof.
  induction d as [|[k' v'] d IH]; simpl; [discriminate|].
  destruct (String.eqb k k') eqn:E.
  - apply String.eqb_eq in E. auto.
  - auto.
Qed.
Lemma dict_set_fresh d k v :
  ~ In k (map fst d) -> dict_set k v d = (d ++ [(k, v)])%list.
Proof.
  induction d as [|[k' v'] d IH]; simpl; intros H; auto.
  destruct (String.eqb k k') eqn:E.
  - apply String.eqb_eq in E. subst k'. tauto.
  - rewrite IH; tauto.
Qed.

(** With distinct keys, filling a dictionary binding by binding gives the
    bindings in their order: the loops that rebuild a dictionary are
    passes over its bindings. *)
Lemma dict_of_items_NoDup d : NoDup (map fst d) -> dict_of_items d = d.
Proof.
  unfold dict_of_items.
  enough (H : forall acc, NoDup (map fst (acc ++ d)%list) ->
                          fold_left (fun a kv => dict_set (fst kv) (snd kv) a)
                                    d acc = (acc ++ d)%list)
    by (intros Hd; apply (H [] Hd)).
  induction d as [|[k v] d IH]; intros acc Hnd; simpl.
  - now rewrite app_nil_r.
  - rewrite dict_set_fresh.
    + rewrite IH; rewrite <- app_assoc; auto.
    + rewrite map_app in Hnd. simpl in Hnd.
      apply NoDup_remove_2 in Hnd. intros Hin. apply Hnd.
      apply in_or_app. now left.
Qed.
End DictFacts.

(** ** The structural merger *)

Lemma merge_spec_dict (od nd : dict) :
  merge_spec (VDict od) (VDict nd)
  = (od' <- first_loop nd od ;; Ret (VDict (add_missing nd (keys nd) od'))).
Proof. reflexivity. Qed.

Lemma first_loop_keeps (nd od od' : dict) :
  first_loop nd od = Ret od' ->
  keys od' = keys od /\
  forall k, dict_get k nd = None -> dict_get k od' = dict_get k od.
Proof.
  revert od'. induction od as [|[key v] od IH]; intros od' H; simpl in H.
  - inversion H. split; auto.
  - assert (Hcons : forall x, (rest' <- first_loop nd od ;; Ret ((key, x) :: rest')) = Ret od' ->
              keys od' = keys ((key, v) :: od) /\
              forall k, dict_get k nd = None ->
                        (String.eqb k key = false \/ x = v) ->
                        dict_get k od' = dict_get k ((key, v) :: od)).
    { intros x Hx. destruct (first_loop nd od) as [r| | |]; simpl in Hx;
        try discriminate.
      inversion Hx; subst od'. destruct (IH r eq_refl) as [Hk Hg].
      split; [simpl; now rewrite Hk|].
      intros k Hn Hor. simpl. destruct (String.eqb k key) eqn:E.
      - destruct Hor; congruence.
      - now apply Hg. }
    destruct (dict_get key nd) as [nv|] eqn:En.
    + assert (Hne : forall k, dict_get k nd = None -> String.eqb k key = false).
      { intros k Hn. destruct (String.eqb k key) eqn:E; auto.
        apply String.eqb_eq in E. congruence. }
      destruct v; try (destruct (Hcons _ H) as [Hk Hg]; split; [exact Hk|];
                       intros k Hn; apply Hg; auto).
      destruct (merge_spec (VDict d) nv) as [m| | |]; simpl in H;
        try discriminate.
      destruct (Hcons _ H) as [Hk Hg]. split; [exact Hk|].
      intros k Hn. apply Hg; auto.
    + destruct (Hcons _ H) as [Hk Hg]. split; [exact Hk|].
      intros k Hn. apply Hg; auto.
Qed.

Lemma dict_get_keys (V : Type) (d d' : list (string * V)) (k : string) :
  map fst d = map fst d' -> dict_mem k d = dict_mem k d'.
Proof.
  unfold dict_mem. revert d'.
  induction d as [|[k1 v1] d IH]; intros [|[k2 v2] d'] H; simpl in *;
    try discriminate; auto.
  inversion H; subst. destruct (String.eqb k k2); auto.
Qed.

Lemma add_missing_keeps (nd : dict) (ks : list string) (orig : dict)
      (k : string) (v : value) :
  dict_get k orig = Some v -> dict_get k (add_missing nd ks orig) = Some v.
Proof.
  revert orig. induction ks as [|key ks IH]; intros orig H; simpl; auto.
  destruct (dict_mem key orig) eqn:Em; auto.
  destruct (dict_get key nd) as [nv|]; auto.
  apply IH. rewrite dict_get_set_other; auto.
  intros ->. apply dict_mem_false in Em. congruence.
Qed.

Lemma add_missing_adds (nd : dict) (ks : list string) (orig : dict)
      (k : string) (v : value) :
  dict_get k orig = None -> In k ks -> dict_get k nd = Some v ->
  dict_get k (add_missing nd ks orig) = Some v.
Proof.
  revert orig. induction ks as [|key ks IH]; intros orig Hn Hin Hv; simpl.
  - destruct Hin.
  - destruct (String.eqb k key) eqn:E.
    + apply String.eqb_eq in E. subst key.
      assert (Em : dict_mem k orig = false) by now apply dict_mem_false.
      rewrite Em, Hv. apply add_missing_keeps. apply dict_get_set_same.
    + assert (Hne : k <> key) by now apply String.eqb_neq.
      destruct Hin as [->|Hin]; [congruence|].
      destruct (dict_mem key orig); auto.
      destruct (dict_get key nd); auto.
      apply IH; auto. rewrite dict_get_set_other; auto.
Qed.

(** C5. The example of the docstring: nested mappings are merged, the
    leaves named by the incoming mapping are overwritten and the nested
    leaf bar.bar, which the incoming mapping omits, is kept. *)
Theorem merge_spec_docstring_example :
  merge_spec
    (VDict [("foo", VInt 1);
            ("bar", VDict [("foo", VInt 2); ("bar", VInt 3)])])
    (VDict [("foo", VInt 6); ("bar", VDict [("foo", VInt 7)])])
  = Ret (VDict [("foo", VInt 6);
                ("bar", VDict [("foo", VInt 7); ("bar", VInt 3)])]).
Proof. reflexivity. Qed.

(** C3. Whenever [merge_spec] returns for two mappings, the result is a
    mapping in which every key of the original that the incoming mapping
    lacks keeps the original's value, and every key of the incoming
    mapping that the original lacks is bound to the incoming value. *)
Theorem merge_spec_keeps_and_adds (original incoming : dict)
        (merged : value) :
  merge_spec (VDict original) (VDict incoming) = Ret merged ->
  exists md, merged = VDict md /\
    (forall k, dict_mem k original = true -> dict_mem k incoming = false ->
               dict_get k md = dict_get k original) /\
    (forall k, dict_mem k incoming = true -> dict_mem k original = false ->
               dict_get k md = dict_get k incoming).
Proof.
  rewrite merge_spec_dict. intros H.
  destruct (first_loop incoming original) as [od'| | |] eqn:E; simpl in H;
    try discriminate.
  inversion H; subst merged. clear H.
  destruct (first_loop_keeps _ _ E) as [Hk Hg].
  eexists; split; [reflexivity|]. split; intros k H1 H2.
  - apply dict_mem_true in H1. destruct H1 as [v Hv].
    apply dict_mem_false in H2. rewrite Hv.
    apply add_missing_keeps. now rewrite Hg.
  - apply dict_mem_true in H1. destruct H1 as [v Hv]. rewrite Hv.
    apply add_missing_adds; auto.
    + apply dict_mem_false. rewrite (@dict_get_keys _ _ _ k Hk). exact H2.
    + unfold keys. eapply dict_get_In; eauto.
Qed.

Lemma merge_spec_keeps_and_adds_witness :
  exists md,
    VDict [("a", VInt 1); ("b", VInt 5); ("c", VInt 3)] = VDict md /\
    (forall k, dict_mem k [("a", VInt 1); ("b", VInt 2)] = true ->
               dict_mem k [("b", VInt 5); ("c", VInt 3)] = false ->
               dict_get k md = dict_get k [("a", VInt 1); ("b", VInt 2)]) /\
    (forall k, dict_mem k [("b", VInt 5); ("c", VInt 3)] = true ->
               dict_mem k [("a", VInt 1); ("b", VInt 2)] = false ->
               dict_get k md = dict_get k [("b", VInt 5); ("c", VInt 3)]).
Proof.
  apply (@merge_spec_keeps_and_adds
           [("a", VInt 1); ("b", VInt 2)] [("b", VInt 5); ("c", VInt 3)]).
  reflexivity.
Defined.

(** [merge_spec] returns whenever the incoming value offers a mapping at
    every place where the original holds one under a shared key. *)
Lemma merge_spec_returns (orig : value) :
  forall new, mergeable orig new = true ->
              exists merged, merge_spec orig new = Ret merged.
Proof.
  induction orig as [| | | | | |od IH] using value_ind;
    intros new Hm; try discriminate.
  destruct new as [| | | | | |nd]; try discriminate.
  rewrite merge_spec_dict.
  assert (Hloop : exists od', first_loop nd od = Ret od').
  { simpl in Hm. induction IH as [|[key v] od Hv _ IHod].
    - simpl. eauto.
    - simpl in Hm. apply andb_true_iff in Hm. destruct Hm as [Hhd Htl].
      destruct (IHod Htl) as [r Hr].
      change (first_loop nd ((key, v) :: od)) with
        (match dict_get key nd with
         | None => rest' <- first_loop nd od ;; Ret ((key, v) :: rest')
         | Some nv =>
             match v with
             | VDict _ =>
                 m <- merge_spec v nv ;;
                 rest' <- first_loop nd od ;;
                 Ret ((key, m) :: rest')
             | _ => rest' <- first_loop nd od ;; Ret ((key, nv) :: rest')
             end
         end).
      rewrite Hr. cbn [fst snd] in Hhd, Hv.
      destruct (dict_get key nd) as [nv|]; [|simpl; eauto].
      destruct v; try (simpl; eauto; fail).
      destruct (Hv nv Hhd) as [m Hmerge]. rewrite Hmerge. simpl. eauto. }
  destruct Hloop as [od' Hod']. rewrite Hod'. simpl. eauto.
Qed.

(** ** The macro resolver *)

Import Settings.

Lemma getValue_unfold (fuel : nat) (self : dict) (attr : string) :
  getValue fuel self attr
  = match dict_get attr self with
    | Some master_value =>
        if String.eqb attr "TEST_PARAMS" then Ret master_value
        else _eval_param fuel self master_value
    | None => Raise AttributeError
    end.
Proof. destruct fuel; reflexivity. Qed.

Lemma as_lists_tuple_free (v : value) : tuple_free v = true -> as_lists v = v.
Proof.
  induction v as [| | | |l IH|l IH|d IH] using value_ind; simpl; intros H;
    auto; try discriminate.
  - f_equal. induction IH as [|x l Hx _ IHl]; simpl in *; auto.
    apply andb_true_iff in H. destruct H as [H1 H2].
    now rewrite Hx, IHl.
  - f_equal. induction IH as [|[k x] d Hx _ IHd]; simpl in *; auto.
    apply andb_true_iff in H. destruct H as [H1 H2].
    now rewrite Hx, IHd.
Qed.

Lemma eval_value_no_placeholders (gv : string -> res value) (v : value) :
  no_placeholders v = true -> eval_value gv v = Ret (as_lists v).
Proof.
  induction v as [| | |s|l IH|l IH|d IH] using value_ind; simpl; intros H;
    auto.
  - destruct (findall s); [reflexivity|discriminate].
  - induction IH as [|x l Hx _ IHl]; simpl in *; auto.
    apply andb_true_iff in H. destruct H as [H1 H2].
    rewrite (Hx H1). simpl. specialize (IHl H2).
    match type of IHl with
    | bind ?m _ = _ => destruct m; simpl in *; try discriminate
    end.
    now inversion IHl.
  - induction IH as [|x l Hx _ IHl]; simpl in *; auto.
    apply andb_true_iff in H. destruct H as [H1 H2].
    rewrite (Hx H1). simpl. specialize (IHl H2).
    match type of IHl with
    | bind ?m _ = _ => destruct m; simpl in *; try discriminate
    end.
    now inversion IHl.
  - induction IH as [|[k x] d Hx _ IHd]; simpl in *; auto.
    apply andb_true_iff in H. destruct H as [H1 H2].
    rewrite (Hx H1). simpl. specialize (IHd H2).
    match type of IHd with
    | bind ?m _ = _ => destruct m; simpl in *; try discriminate
    end.
    now inversion IHd.
Qed.

(** Exceptions caught inside the loop over the macros never leave it. *)
Lemma expand_never_raises_caught (gv : string -> res value)
      (macros : list macro) (param : string) (e : exn) :
  caught e = true -> expand gv macros param <> Raise e.
Proof.
  intros He. revert param.
  induction macros as [|m macros IH]; intros param; simpl.
  - discriminate.
  - destruct (eval_macro gv m) as [v|[]| |]; auto; try discriminate;
      intros H; inversion H; subst e; discriminate.
Qed.

Lemma eval_value_never_raises_caught (gv : string -> res value) (v : value)
      (e : exn) :
  caught e = true -> eval_value gv v <> Raise e.
Proof.
  intros He.
  induction v as [| | |s|l IH|l IH|d IH] using value_ind; simpl;
    try discriminate.
  - pose proof (@expand_never_raises_caught gv (findall s) s e He) as Hx.
    destruct (expand gv (findall s) s); simpl; congruence.
  - induction IH as [|x l Hx _ IHl]; simpl in *; [discriminate|].
    destruct (eval_value gv x); simpl; try congruence.
    match goal with
    | H : bind ?m _ <> _ |- _ => destruct m; simpl in *; congruence
    end.
  - induction IH as [|x l Hx _ IHl]; simpl in *; [discriminate|].
    destruct (eval_value gv x); simpl; try congruence.
    match goal with
    | H : bind ?m _ <> _ |- _ => destruct m; simpl in *; congruence
    end.
  - induction IH as [|[k x] d Hx _ IHd]; simpl in *; [discriminate|].
    destruct (eval_value gv x); simpl; try congruence.
    match goal with
    | H : bind ?m _ <> _ |- _ => destruct m; simpl in *; congruence
    end.
Qed.

(** ** The setting store *)

Lemma getValue_AttributeError_absent (fuel : nat) (self : dict)
      (name : string) :
  getValue fuel self name = Raise AttributeError -> dict_get name self = None.
Proof.
  rewrite getValue_unfold. destruct (dict_get name self) as [v|]; auto.
  intros H. exfalso.
  destruct (String.eqb name "TEST_PARAMS"); [discriminate|].
  revert H. now apply eval_value_never_raises_caught.
Qed.

(** C6, as the code has it.  [getValue] raises AttributeError exactly when
    no setting is stored under the name as it is given; the name is not
    normalized, and nothing is returned in place of a missing setting. *)
Theorem getValue_unknown_iff_absent (fuel : nat) (self : dict)
        (name : string) :
  getValue fuel self name = Raise AttributeError <->
  dict_get name self = None.
Proof.
  split; [apply getValue_AttributeError_absent|].
  intros H. rewrite getValue_unfold. now rewrite H.
Qed.

(** C6, counterexample.  With a setting stored under FOO, reading foo
    raises although the uppercased name is present. *)
Lemma getValue_does_not_normalize :
  dict_get (upper "foo") [("FOO", VInt 1)] = Some (VInt 1) /\
  getValue 1 [("FOO", VInt 1)] "foo" = Raise AttributeError /\
  getValue 1 [("FOO", VInt 1)] "FOO" = Ret (VInt 1).
Proof. repeat split. Qed.

(** C8, as the code has it.  A name for which [isupper] is false (no
    uppercase letter, or some lowercase letter) is dropped by
    [__setattr__]: the store is returned as it was. *)
Theorem setattr_drops_non_upper (self : dict) (name : string) (v : value) :
  isupper name = false -> __setattr__ self name v = self.
Proof. intros H. unfold __setattr__. now rewrite H. Qed.

Lemma setattr_drops_non_upper_witness :
  isupper "foo_bar" = false /\
  __setattr__ [("A", VInt 1)] "foo_bar" (VInt 2) = [("A", VInt 1)].
Proof.
  split; [reflexivity|].
  apply (@setattr_drops_non_upper [("A", VInt 1)] "foo_bar" (VInt 2)).
  reflexivity.
Defined.

(** C8, counterexample.  The name A-B is not identifier-shaped, yet
    [__setattr__] stores it. *)
Lemma setattr_stores_non_identifier :
  identifier_shaped "A-B" = false /\
  __setattr__ [] "A-B" (VInt 1) = [("A-B", VInt 1)] /\
  __setattr__ [] "A-B" (VInt 1) <> [].
Proof. repeat split. discriminate. Qed.

Lemma setattr_stores_upper (self : dict) (name : string) (v : value) :
  isupper name = true ->
  dict_get name (__setattr__ self name v) = Some v.
Proof.
  intros H. unfold __setattr__. rewrite H. apply dict_get_set_same.
Qed.

(** C9.  A stored TEST_PARAMS is returned as it is stored; every other
    stored name is handed to [_eval_param]. *)
Theorem getValue_bypasses_TEST_PARAMS (fuel : nat) (self : dict)
        (attr : string) (v : value) :
  dict_get attr self = Some v ->
  getValue fuel self attr
  = if String.eqb attr "TEST_PARAMS" then Ret v
    else _eval_param fuel self v.
Proof. intros H. rewrite getValue_unfold. now rewrite H. Qed.

Lemma getValue_bypasses_TEST_PARAMS_witness :
  getValue 2 [("TEST_PARAMS", VStr "#PARAM(B)"); ("B", VStr "x")]
           "TEST_PARAMS"
  = Ret (VStr "#PARAM(B)").
Proof.
  exact (@getValue_bypasses_TEST_PARAMS 2
           [("TEST_PARAMS", VStr "#PARAM(B)"); ("B", VStr "x")]
           "TEST_PARAMS" (VStr "#PARAM(B)") eq_refl).
Defined.

(** The same text under another name is expanded. *)
Example getValue_expands_other_names :
  getValue 2 [("OTHER", VStr "#PARAM(B)"); ("B", VStr "x")] "OTHER"
  = Ret (VStr "x").
Proof. reflexivity. Qed.

(** C7, as the code has it.  A stored value without placeholder
    occurrences is returned with the same content, every tuple in it
    having become the list of its elements (TEST_PARAMS is returned as
    stored); a value without tuples is returned unchanged. *)
Theorem getValue_without_placeholders (fuel : nat) (self : dict)
        (attr : string) (v : value) :
  dict_get attr self = Some v ->
  no_placeholders v = true ->
  getValue fuel self attr
  = Ret (if String.eqb attr "TEST_PARAMS" then v else as_lists v)
  /\ (tuple_free v = true -> getValue fuel self attr = Ret v).
Proof.
  intros Hg Hn. rewrite getValue_unfold, Hg.
  unfold _eval_param. rewrite (eval_value_no_placeholders _ _ Hn).
  split; [now destruct (String.eqb attr "TEST_PARAMS")|].
  intros Ht. rewrite (as_lists_tuple_free _ Ht).
  now destruct (String.eqb attr "TEST_PARAMS").
Qed.

Lemma getValue_without_placeholders_witness :
  getValue 0 [("X", VList [VStr "a"; VTuple [VInt 1; VInt 2]])] "X"
  = Ret (VList [VStr "a"; VList [VInt 1; VInt 2]]).
Proof.
  exact (proj1 (@getValue_without_placeholders 0
                  [("X", VList [VStr "a"; VTuple [VInt 1; VInt 2]])] "X"
                  (VList [VStr "a"; VTuple [VInt 1; VInt 2]])
                  eq_refl eq_refl)).
Defined.

(** C7, counterexample.  A stored tuple without placeholders is read back
    as a list, which is a different value. *)
Lemma getValue_turns_tuple_into_list :
  no_placeholders (VTuple [VInt 1; VInt 2]) = true /\
  getValue 1 [("X", VTuple [VInt 1; VInt 2])] "X"
  = Ret (VList [VInt 1; VInt 2]) /\
  getValue 1 [("X", VTuple [VInt 1; VInt 2])] "X"
  <> Ret (VTuple [VInt 1; VInt 2]).
Proof. repeat split. discriminate. Qed.

Lemma object_setattr_stores (self : dict) (name : string) (v : value) :
  descriptor_name name = false ->
  object_setattr self name v = Ret (dict_set name v self).
Proof.
  unfold descriptor_name, object_setattr. intros H.
  apply orb_false_iff in H. destruct H as [H H3].
  apply orb_false_iff in H. destruct H as [H1 H2].
  now rewrite H1, H2, H3.
Qed.

(** The names that [__setattr__] lets through are stored by
    [object.__setattr__] as [__setattr__] stores them. *)
Lemma object_setattr_upper (self : dict) (name : string) (v : value) :
  isupper name = true ->
  object_setattr self name v = Ret (dict_set name v self).
Proof.
  intros Hu. apply object_setattr_stores. unfold descriptor_name.
  destruct (String.eqb name "__dict__") eqn:E1;
    [apply String.eqb_eq in E1; subst; discriminate|].
  destruct (String.eqb name "__class__") eqn:E2;
    [apply String.eqb_eq in E2; subst; discriminate|].
  destruct (String.eqb name "__weakref__") eqn:E3;
    [apply String.eqb_eq in E3; subst; discriminate|].
  reflexivity.
Qed.

Lemma setValue_not_None (self : dict) (name : string) (v : value) :
  descriptor_name name = false -> v <> VNone ->
  setValue self (Some name) v = Ret (dict_set name v self).
Proof.
  intros Hd Hv. destruct v; simpl; try congruence;
    now apply object_setattr_stores.
Qed.

(** Outside the three descriptor names, [setValue] returns a store in
    which every other name is as before. *)
Lemma setValue_get_other (self : dict) (key k : string) (v : value) :
  descriptor_name key = false -> k <> key ->
  exists self', setValue self (Some key) v = Ret self' /\
                dict_get k self' = dict_get k self.
Proof.
  intros Hd Hne.
  assert (Hcase : v = VNone \/ v <> VNone)
    by (destruct v; (left; reflexivity) || (right; discriminate)).
  destruct Hcase as [->|Hv].
  - exists self. split; reflexivity.
  - exists (dict_set key v self). split.
    + now apply setValue_not_None.
    + now apply dict_get_set_other.
Qed.

Lemma In_keys_get (V : Type) (d : list (string * V)) (k : string) :
  In k (map fst d) -> exists v, dict_get k d = Some v /\ In (k, v) d.
Proof.
  induction d as [|[k' v'] d IH]; simpl; [tauto|].
  intros H. destruct (String.eqb k k') eqn:E.
  - apply String.eqb_eq in E. subst k'. eauto.
  - destruct H as [H|H].
    + subst k'. rewrite String.eqb_refl in E. discriminate.
    + destruct (IH H) as [v [Hv Hin]]. eauto.
Qed.

Lemma plain_keys (conf : dict) (key : string) :
  forallb (fun kv => negb (descriptor_name (fst kv))) conf = true ->
  In key (keys conf) -> descriptor_name key = false.
Proof.
  intros Hall Hin. unfold keys in Hin. apply In_keys_get in Hin.
  destruct Hin as [v [_ Hin]].
  rewrite forallb_forall in Hall. specialize (Hall _ Hin). simpl in Hall.
  now apply negb_true_iff in Hall.
Qed.

Lemma restore_entries_get (conf : dict) (k : string) (v : value) :
  forallb (fun kv => negb (descriptor_name (fst kv))) conf = true ->
  dict_get k conf = Some v -> v <> VNone ->
  forall ks acc,
    (forall key, In key ks -> In key (keys conf)) ->
    In k ks \/ dict_get k acc = Some v ->
    exists s, restore_entries acc ks conf = Ret s /\ dict_get k s = Some v.
Proof.
  intros Hplain Hk Hv. induction ks as [|key ks IH]; intros acc Hks H;
    cbn [restore_entries].
  - destruct H as [[]|H]. eauto.
  - assert (Hkey : descriptor_name key = false).
    { apply (plain_keys conf); auto. apply Hks. now left. }
    assert (Hks' : forall key', In key' ks -> In key' (keys conf))
      by (intros key' Hin; apply Hks; now right).
    destruct (String.eqb k key) eqn:E.
    + apply String.eqb_eq in E. subst key. rewrite Hk.
      rewrite setValue_not_None by assumption. cbn [bind].
      apply IH; auto. right. apply dict_get_set_same.
    + assert (Hne : k <> key) by now apply String.eqb_neq.
      destruct (@In_keys_get value conf key) as [v' [Hv' _]];
        [apply Hks; now left|].
      rewrite Hv'.
      destruct (@setValue_get_other acc key k v' Hkey Hne)
        as [acc' [Hs Hg]].
      rewrite Hs. cbn [bind]. apply IH; auto.
      destruct H as [[->|H]|H]; [congruence|now left|right; congruence].
Qed.

Lemma restore_entries_absent (conf : dict) (k : string) :
  forallb (fun kv => negb (descriptor_name (fst kv))) conf = true ->
  dict_get k conf = None ->
  forall ks acc s,
    (forall key, In key ks -> In key (keys conf)) ->
    dict_get k acc = None ->
    restore_entries acc ks conf = Ret s ->
    dict_get k s = None.
Proof.
  intros Hplain Hk. induction ks as [|key ks IH]; intros acc s Hks H Hr;
    cbn [restore_entries] in Hr.
  - now inversion Hr; subst.
  - assert (Hkey : descriptor_name key = false).
    { apply (plain_keys conf); auto. apply Hks. now left. }
    destruct (@In_keys_get value conf key) as [v' [Hv' _]];
      [apply Hks; now left|].
    rewrite Hv' in Hr.
    assert (Hne : k <> key) by congruence.
    destruct (@setValue_get_other acc key k v' Hkey Hne)
      as [acc' [Hs Hg]].
    rewrite Hs in Hr. cbn [bind] in Hr.
    apply (IH acc' s); auto.
    + intros key' Hin. apply Hks. now right.
    + congruence.
Qed.

(** [restore_from_dict] forgets every setting the snapshot lacks, for a
    snapshot without the three descriptor names. *)
Lemma restore_from_dict_drops (self conf s : dict) (k : string) :
  forallb (fun kv => negb (descriptor_name (fst kv))) conf = true ->
  dict_get k conf = None ->
  restore_from_dict self conf = Ret s ->
  dict_get k s = None.
Proof.
  intros Hp Hk Hr. unfold restore_from_dict in Hr.
  apply (@restore_entries_absent conf k Hp Hk (keys conf) [] s); auto.
Qed.

Lemma call_getValue_unhidden (fuel : nat) (self : dict) (attr : string) :
  hides_reader self = false ->
  call_getValue fuel self attr = getValue fuel self attr.
Proof.
  unfold hides_reader, call_getValue. intros H.
  apply orb_false_iff in H. destruct H as [H1 H2].
  rewrite H1, H2, getValue_unfold. reflexivity.
Qed.

(** C10, as the code has it.  [setValue] neither checks nor normalizes the
    name.  For a name other than __dict__, __class__ and __weakref__ and a
    value other than None, it stores the value under the name as given;
    a read of that name then returns the stored value for TEST_PARAMS and
    its expansion by [_eval_param] otherwise (the value itself, tuples
    as lists, when it has no placeholders), provided no stored value
    hides the methods getValue and _eval_param.  [restore_from_dict] of a
    snapshot without the three names returns a store that holds the
    snapshot's value under the name as given.  With a None name or a None
    value, both included, [setValue] changes nothing. *)
Theorem setValue_stores_verbatim (self : dict) (name : string) (v : value) :
  descriptor_name name = false ->
  v <> VNone ->
  setValue self (Some name) v = Ret (dict_set name v self) /\
  dict_get name (dict_set name v self) = Some v /\
  (forall fuel,
      hides_reader (dict_set name v self) = false ->
      call_getValue fuel (dict_set name v self) name
      = (if String.eqb name "TEST_PARAMS" then Ret v
         else _eval_param fuel (dict_set name v self) v) /\
      (no_placeholders v = true ->
       call_getValue fuel (dict_set name v self) name
       = Ret (if String.eqb name "TEST_PARAMS" then v else as_lists v))) /\
  (forall conf,
      forallb (fun kv => negb (descriptor_name (fst kv))) conf = true ->
      dict_get name conf = Some v ->
      exists s, restore_from_dict self conf = Ret s /\
                dict_get name s = Some v) /\
  (forall v', setValue self None v' = Ret self) /\
  (forall n, setValue self n VNone = Ret self).
Proof.
  intros Hd Hv.
  split; [now apply setValue_not_None|].
  split; [apply dict_get_set_same|].
  split; [|split; [|split]].
  - intros fuel Hh. rewrite call_getValue_unhidden by exact Hh.
    rewrite getValue_unfold, dict_get_set_same. split; [reflexivity|].
    intros Hn. unfold _eval_param.
    rewrite (eval_value_no_placeholders _ _ Hn).
    now destruct (String.eqb name "TEST_PARAMS").
  - intros conf Hp Hc. unfold restore_from_dict.
    apply restore_entries_get; auto.
    left. unfold keys. eapply dict_get_In; eauto.
  - reflexivity.
  - intros [n|]; reflexivity.
Qed.

Lemma setValue_stores_verbatim_witness :
  setValue [] (Some "foo-bar") (VInt 1) = Ret [("foo-bar", VInt 1)] /\
  call_getValue 0 [("foo-bar", VInt 1)] "foo-bar" = Ret (VInt 1) /\
  (exists s,
      restore_from_dict [("A", VInt 0)] [("B", VNone); ("foo-bar", VInt 1)]
      = Ret s /\ dict_get "foo-bar" s = Some (VInt 1)) /\
  __setattr__ [] "foo-bar" (VInt 1) = [] /\
  setValue [("A", VInt 0)] None VNone = Ret [("A", VInt 0)].
Proof.
  assert (Hv : VInt 1 <> VNone) by discriminate.
  destruct (@setValue_stores_verbatim [] "foo-bar" (VInt 1) eq_refl Hv)
    as [H1 [_ [H3 _]]].
  destruct (@setValue_stores_verbatim [("A", VInt 0)] "foo-bar" (VInt 1)
              eq_refl Hv) as [_ [_ [_ [H4 [H5 _]]]]].
  split; [exact H1|].
  split; [exact (proj2 (H3 0 eq_refl) eq_refl)|].
  split; [apply H4; reflexivity|].
  split; [reflexivity|apply H5].
Defined.

(** C10, counterexample.  Assigning to __class__ raises TypeError and
    nothing is stored; assigning a mapping to __dict__ replaces the whole
    store instead of adding a setting; and a value stored under the name
    getValue makes the next read raise TypeError. *)
Lemma setValue_descriptor_names :
  setValue [("A", VInt 1)] (Some "__class__") (VInt 5) = Raise TypeError /\
  setValue [("A", VInt 1)] (Some "__dict__") (VDict [("B", VInt 2)])
  = Ret [("B", VInt 2)] /\
  setValue [("A", VInt 1)] (Some "getValue") (VInt 5)
  = Ret [("A", VInt 1); ("getValue", VInt 5)] /\
  call_getValue 1 [("A", VInt 1); ("getValue", VInt 5)] "getValue"
  = Raise TypeError.
Proof. repeat split. Qed.

(** ** Placeholders whose target is set later *)

Lemma eval_macro_plain (gv : string -> res value) (g name : string) :
  eval_macro gv (g, name, EmptyString) = gv name.
Proof. unfold eval_macro. simpl. now destruct (gv name). Qed.

(** A macro whose evaluation raises a caught exception is passed over:
    the text is left as it is and the loop goes on. *)
Lemma expand_skips_caught (gv : string -> res value) (m : macro)
      (macros : list macro) (param : string) (e : exn) :
  eval_macro gv m = Raise e -> caught e = true ->
  expand gv (m :: macros) param = expand gv macros param.
Proof. intros H He. simpl. rewrite H. now destruct e. Qed.

Lemma expand_all_caught (gv : string -> res value) (macros : list macro)
      (param : string) :
  Forall (fun m => exists e, eval_macro gv m = Raise e /\ caught e = true)
         macros ->
  expand gv macros param = Ret param.
Proof.
  induction 1 as [|m macros [e [He Hc]] _ IH]; [reflexivity|].
  now rewrite (@expand_skips_caught gv m macros param e He Hc).
Qed.

(** A placeholder whose base name is not set evaluates to AttributeError
    whenever its subscripts are in the interpreted fragment. *)
Lemma eval_macro_unknown_name (fuel : nat) (self : dict) (g name subs : string)
      (accs : list accessor) :
  parse_accessors subs = Some accs ->
  dict_get name self = None ->
  eval_macro (getValue fuel self) (g, name, subs) = Raise AttributeError.
Proof.
  intros Hp Hn. unfold eval_macro. rewrite Hp, getValue_unfold, Hn.
  reflexivity.
Qed.

(** Several occurrences of one placeholder: [replace] is applied once per
    occurrence found by [findall]. *)
Lemma expand_one_placeholder (gv : string -> res value) (m : macro)
      (v : value) (macros : list macro) (param : string) :
  eval_macro gv m = Ret v ->
  Forall (eq m) macros ->
  expand gv macros param
  = Ret (Nat.iter (List.length macros)
                  (replace (placeholder m) (py_str v)) param).
Proof.
  intros Hv H. revert param.
  induction H as [|x macros <- _ IH]; intros param; [reflexivity|].
  cbn [expand List.length]. rewrite Hv, IH. f_equal.
  now rewrite Nat.iter_succ_r.
Qed.

(** C2.  Let the text stored under [A] have one placeholder occurrence,
    which refers to [B].  While [B] is not set, reading [A] returns the
    stored text with the placeholder intact; once [B] has been set,
    reading [A] returns the text with the placeholder replaced by the
    textual form of what reading [B] returns. *)
Theorem forward_reference_resolved_on_read (fuel : nat) (self : dict)
        (A B a : string) (vB rB : value) :
  dict_get A self = Some (VStr a) ->
  A <> "TEST_PARAMS" ->
  findall a = [(B, B, EmptyString)] ->
  dict_get B self = None ->
  isupper B = true ->
  getValue (S fuel) self A = Ret (VStr a) /\
  (getValue fuel (__setattr__ self B vB) B = Ret rB ->
   getValue (S fuel) (__setattr__ self B vB) A
   = Ret (VStr (replace ("#PARAM(" ++ B ++ ")") (py_str rB) a))).
Proof.
  intros HA Hne Hf HB Hup.
  apply String.eqb_neq in Hne.
  assert (HAB : A <> B) by (intros ->; congruence).
  split.
  - rewrite getValue_unfold, HA, Hne. unfold _eval_param. simpl.
    rewrite Hf. cbn [expand nested]. rewrite eval_macro_plain.
    rewrite getValue_unfold, HB. reflexivity.
  - intros Hr. unfold __setattr__ in *. rewrite Hup in *. simpl negb in *.
    cbv iota in *.
    rewrite getValue_unfold, dict_get_set_other, HA, Hne by exact HAB.
    unfold _eval_param. simpl. rewrite Hf. cbn [expand nested].
    rewrite eval_macro_plain, Hr. reflexivity.
Qed.

Lemma forward_reference_resolved_on_read_witness :
  getValue 2 [("A", VStr "dir=#PARAM(B)/x")] "A"
  = Ret (VStr "dir=#PARAM(B)/x") /\
  getValue 2 (__setattr__ [("A", VStr "dir=#PARAM(B)/x")] "B"
                          (VList [VInt 1; VStr "t"])) "A"
  = Ret (VStr "dir=[1, 't']/x").
Proof.
  destruct (@forward_reference_resolved_on_read 1
              [("A", VStr "dir=#PARAM(B)/x")] "A" "B" "dir=#PARAM(B)/x"
              (VList [VInt 1; VStr "t"]) (VList [VInt 1; VStr "t"])
              eq_refl) as [H1 H2];
    try reflexivity; try discriminate.
  split; [exact H1|]. apply H2. reflexivity.
Defined.

(** ** More fuel never changes an outcome *)

Section Monotone.
Variables gv gv' : string -> res value.
Hypothesis Hext : extends gv gv'.

Lemma eval_macro_mono (m : macro) :
  eval_macro gv m <> OutOfFuel -> eval_macro gv' m = eval_macro gv m.
Proof.
  destruct m as [[g name] subs]. unfold eval_macro.
  destruct (parse_accessors subs) as [accs|]; auto.
  intros H. rewrite Hext; auto.
  intros E. rewrite E in H. now apply H.
Qed.

Lemma expand_mono (macros : list macro) (param : string) :
  expand gv macros param <> OutOfFuel ->
  expand gv' macros param = expand gv macros param.
Proof.
  revert param. induction macros as [|m macros IH]; intros param; auto.
  cbn [expand]. intros H.
  assert (Hm : eval_macro gv m <> OutOfFuel).
  { intros E. rewrite E in H. now apply H. }
  rewrite (eval_macro_mono _ Hm).
  destruct (eval_macro gv m) as [v|[]| |]; auto.
Qed.

Lemma eval_value_mono (v : value) :
  eval_value gv v <> OutOfFuel -> eval_value gv' v = eval_value gv v.
Proof.
  induction v as [| | |s|l IH|l IH|d IH] using value_ind; simpl; auto.
  - intros H. rewrite expand_mono; auto.
    intros E. rewrite E in H. now apply H.
  - induction IH as [|x l Hx _ IHl]; simpl in *; auto.
    intros H. destruct (eval_value gv x) as [y| | |] eqn:Ex;
      try (rewrite Hx by discriminate; reflexivity);
      [|exfalso; now apply H].
    rewrite Hx by discriminate. simpl in *.
    match type of IHl with
    | (bind ?m _ <> _) -> bind ?m' _ = _ =>
        destruct m eqn:E1; destruct m' eqn:E2; simpl in *;
          try (specialize (IHl ltac:(discriminate)));
          try congruence; try (exfalso; now apply H)
    end.
  - induction IH as [|x l Hx _ IHl]; simpl in *; auto.
    intros H. destruct (eval_value gv x) as [y| | |] eqn:Ex;
      try (rewrite Hx by discriminate; reflexivity);
      [|exfalso; now apply H].
    rewrite Hx by discriminate. simpl in *.
    match type of IHl with
    | (bind ?m _ <> _) -> bind ?m' _ = _ =>
        destruct m eqn:E1; destruct m' eqn:E2; simpl in *;
          try (specialize (IHl ltac:(discriminate)));
          try congruence; try (exfalso; now apply H)
    end.
  - induction IH as [|[k x] d Hx _ IHd]; simpl in *; auto.
    intros H. destruct (eval_value gv x) as [y| | |] eqn:Ex;
      try (rewrite Hx by discriminate; reflexivity);
      [|exfalso; now apply H].
    rewrite Hx by discriminate. simpl in *.
    match type of IHd with
    | (bind ?m _ <> _) -> bind ?m' _ = _ =>
        destruct m eqn:E1; destruct m' eqn:E2; simpl in *;
          try (specialize (IHd ltac:(discriminate)));
          try congruence; try (exfalso; now apply H)
    end.
Qed.
End Monotone.

Lemma getValue_fuel_succ (fuel : nat) (self : dict) :
  extends (getValue fuel self) (getValue (S fuel) self).
Proof.
  induction fuel as [|fuel IH]; intros attr H;
    rewrite (getValue_unfold (S _)); rewrite getValue_unfold in H |- *;
    destruct (dict_get attr self) as [v|]; auto;
    destruct (String.eqb attr "TEST_PARAMS"); auto;
    unfold _eval_param in *; apply eval_value_mono; auto.
  intros name Hn. now elim Hn.
Qed.

(** An outcome reached with some fuel is reached with any larger fuel. *)
Lemma getValue_fuel_mono (fuel extra : nat) (self : dict) (attr : string) :
  getValue fuel self attr <> OutOfFuel ->
  getValue (extra + fuel) self attr = getValue fuel self attr.
Proof.
  intros H. induction extra as [|extra IH]; auto.
  cbn [Nat.add]. rewrite getValue_fuel_succ; congruence.
Qed.

(** ** Unresolved placeholders *)

(** Unknown names and indices out of range leave their placeholders in
    the text, and the later placeholder is still expanded. *)
Example unresolved_placeholders_are_kept :
  getValue 1 [("A", VStr "#PARAM(NOPE) #PARAM(L[5]) #PARAM(B)");
              ("L", VList [VInt 0]); ("B", VInt 7)] "A"
  = Ret (VStr "#PARAM(NOPE) #PARAM(L[5]) 7").
Proof. reflexivity. Qed.

(** If every placeholder of a text names an unset setting, reading the
    text returns it as stored. *)
Lemma expand_unknown_names (fuel : nat) (self : dict) (s : string) :
  Forall (fun m : macro =>
            dict_get (snd (fst m)) self = None /\
            parse_accessors (snd m) <> None) (findall s) ->
  _eval_param (S fuel) self (VStr s) = Ret (VStr s).
Proof.
  intros H. unfold _eval_param. cbn [eval_value nested].
  rewrite expand_all_caught; [reflexivity|].
  eapply Forall_impl; [|exact H].
  intros [[g name] subs] [Hn Hp]. simpl in Hn, Hp.
  destruct (parse_accessors subs) as [accs|] eqn:E; [|congruence].
  exists AttributeError. split; [|reflexivity].
  eapply eval_macro_unknown_name; eauto.
Qed.

(** C1, the defect.  A placeholder with a key that the referenced mapping
    lacks raises KeyError, which [_eval_param] does not catch: the
    exception reaches the caller of [getValue] instead of the text with
    the placeholder left in place. *)
Theorem missing_key_reaches_caller :
  getValue 1 [("A", VStr "#PARAM(B['x'])"); ("B", VDict [("y", VInt 1)])] "A"
  = Raise KeyError.
Proof. reflexivity. Qed.

(** ** Loading from a dictionary *)

Lemma load_from_dict_single (self : dict) (key : string) (v : value) :
  load_from_dict self [(key, v)] = load_entry self key v.
Proof.
  unfold load_from_dict. simpl. rewrite String.eqb_refl.
  now destruct (load_entry self key v).
Qed.

(** What one round of the loop does, case by case: a None value is
    skipped; a mapping under a key whose uppercased form holds a mapping
    is merged into it by [merge_spec] and the result is stored; a value
    that is neither None nor a mapping is handed to [__setattr__] under
    the uppercased key, without [merge_spec]. *)
Lemma load_entry_cases (self : dict) (key : string) (v : value) :
  (v = VNone -> load_entry self key v = Ret self) /\
  (forall od,
      is_mapping v = true ->
      dict_get (upper key) self = Some (VDict od) ->
      load_entry self key v
      = (merged <- merge_spec (VDict od) v ;;
         Ret (dict_set (upper key) merged self))) /\
  (is_mapping v = false -> v <> VNone ->
   load_entry self key v = Ret (__setattr__ self (upper key) v)).
Proof.
  split; [intros ->; reflexivity|]. split.
  - intros od Hm Hg. destruct v; try discriminate.
    unfold load_entry, getattr. rewrite Hg. cbn [bind].
    destruct (merge_spec (VDict od) (VDict d)) as [m| | |]; auto.
    cbn [bind]. unfold __setattr__.
    destruct (isupper (upper key)); simpl; auto.
    now rewrite dict_set_set.
  - intros Hm Hn. unfold load_entry.
    destruct v; try discriminate; try congruence; reflexivity.
Qed.

(** A mapping under a key whose uppercased form is not set stops the
    load with AttributeError, whatever the store and the mapping are. *)
Lemma load_entry_unset_mapping (self : dict) (key : string) (nd : dict) :
  dict_get (upper key) self = None ->
  load_entry self key (VDict nd) = Raise AttributeError.
Proof. intros H. unfold load_entry, getattr. now rewrite H. Qed.

(** C4, the defect.  Loading a mapping under a key that is not yet in the
    store does not create the setting: [getattr] raises AttributeError
    before [merge_spec] or [setattr] is reached, and the load stops.  A
    value that is not a mapping does create the setting under the same
    key. *)
Theorem load_from_dict_unset_mapping_raises :
  load_from_dict [] [("foo", VDict [("a", VInt 1)])] = Raise AttributeError
  /\ load_from_dict [] [("foo", VInt 1)] = Ret [("FOO", VInt 1)].
Proof. split; reflexivity. Qed.
